(** * Verification of [llamafactory/data/processors/processor_utils.py]

    A shallow embedding of the packing utilities ([search_for_fit],
    [greedy_knapsack]) and of [get_paligemma_token_type_ids], followed by
    the properties the specification states about them.

    Python integers are unbounded, so sizes, capacities and the [-1]
    sentinel are in [Z]; list positions are [nat].  Python lists are
    [list Z]; [numbers[i]] is stdpp's lookup [numbers !! i] and
    [numbers.pop(i)] is the lookup together with [delete i numbers]. *)

From Stdlib Require Import ZArith List Lia.
From stdpp Require Import base numbers list sorting.
From Equations Require Import Equations.
From Equations.Prop Require Import Logic.

Local Open Scope Z_scope.

(* The unfolding equations of the loops are proved without function
   extensionality, so the development rests on no axiom. *)
Unset Equations With Funext.

(** ** Results of running Python code *)

(** The exceptions the embedded functions could raise. *)
Inductive exn : Type :=
  | IndexError
  | AttributeError.

(** A finished call either returns a value or raises. *)
Inductive result (A : Type) : Type :=
  | Ok (a : A)
  | Raise (e : exn).

Arguments Ok {A} a.
Arguments Raise {A} e.

(** Python's builtin [sum] on a list of integers. *)
Definition sum (l : list Z) : Z := foldr Z.add 0 l.

(** ** [bisect.bisect] (CPython's [bisect_right])

    [while lo < hi: mid = (lo + hi) // 2;
       if x < a[mid]: hi = mid  else: lo = mid + 1]
    and the result is [lo].  The loop is entered with [hi <= len(a)], so
    [a[mid]] is always in range; the embedding keeps the out-of-range
    branch and leaves the loop there. *)
Equations? bisect_loop (a : list Z) (x : Z) (lo hi : nat) : nat
  by wf (hi - lo)%nat lt :=
bisect_loop a x lo hi with lt_dec lo hi := {
  | right _ => lo
  | left _ with a !! ((lo + hi) `div` 2)%nat := {
    | Some v with Z_lt_dec x v := {
      | left _ => bisect_loop a x lo ((lo + hi) `div` 2)%nat
      | right _ => bisect_loop a x ((lo + hi) `div` 2 + 1)%nat hi }
    | None => lo } }.
Proof.
  all: change (fst (Nat.divmod (lo + hi) 1 0 1)) with ((lo + hi) / 2)%nat;
       pose proof (Nat.div_mod_eq (lo + hi) 2);
       pose proof (Nat.mod_upper_bound (lo + hi) 2); lia.
Qed.

Definition bisect (a : list Z) (x : Z) : nat :=
  bisect_loop a x 0 (length a).

(** ** [search_for_fit] *)

(** [index = bisect.bisect(numbers, capacity)];
    [return -1 if index == 0 else (index - 1)]. *)
Definition search_for_fit (numbers : list Z) (capacity : Z) : Z :=
  let index := bisect numbers capacity in
  if (index =? 0)%nat then -1 else Z.of_nat index - 1.

(** ** [greedy_knapsack] *)

(** The inner [while True] loop.  Its state is the pool [numbers], the
    [remaining_capacity] and the [current_knapsack]; it returns the pool
    and the knapsack at the [break].  Every iteration pops one element of
    the pool, which is the measure of the recursion. *)
Equations? fill_knapsack (numbers : list Z) (remaining_capacity : Z)
    (current_knapsack : list Z) : result (list Z * list Z)
  by wf (length numbers) lt :=
fill_knapsack numbers remaining_capacity current_knapsack
  with Z.eq_dec (search_for_fit numbers remaining_capacity) (-1) := {
  | left _ => Ok (numbers, current_knapsack)
  | right _
    with inspect (numbers !! Z.to_nat (search_for_fit numbers remaining_capacity)) := {
    | exist _ None _ => Raise IndexError
    | exist _ (Some v) Hv =>
        fill_knapsack
          (delete (Z.to_nat (search_for_fit numbers remaining_capacity)) numbers)
          (remaining_capacity - v)
          (current_knapsack ++ [v]) } }.
Proof.
  rewrite length_delete by eauto.
  apply lookup_lt_Some in Hv. lia.
Qed.

(** The outer [while numbers] loop.  It need not terminate, so it takes
    a bound on the number of iterations: [None] means that the loop is
    still running after [fuel] iterations. *)
Fixpoint pack_loop (fuel : nat) (numbers : list Z) (capacity : Z)
    (knapsacks : list (list Z)) : option (result (list (list Z))) :=
  match fuel with
  | O => None
  | S fuel' =>
      match numbers with
      | [] => Some (Ok knapsacks)
      | _ :: _ =>
          match fill_knapsack numbers capacity [] with
          | Raise e => Some (Raise e)
          | Ok (numbers', current_knapsack) =>
              pack_loop fuel' numbers' capacity (knapsacks ++ [current_knapsack])
          end
      end
  end.

(** [numbers.sort()] on integers: the ascending arrangement of the list. *)
Definition sort (numbers : list Z) : list Z := merge_sort Z.le numbers.

Definition greedy_knapsack (fuel : nat) (numbers : list Z) (capacity : Z)
    : option (result (list (list Z))) :=
  pack_loop fuel (sort numbers) capacity [].

(** ** [get_paligemma_token_type_ids] *)

(** The one attribute of the processor that the function reads; an
    absent attribute makes [getattr] raise. *)
Record ProcessorMixin : Type := {
  image_seq_length : option Z
}.

(** [[0] * n] is empty for [n <= 0], like [replicate (Z.to_nat n) 0]. *)
Definition get_paligemma_token_type_ids (input_len : Z)
    (processor : ProcessorMixin) : result (list Z) :=
  match image_seq_length processor with
  | None => Raise AttributeError
  | Some image_seq_length =>
      Ok (replicate (Z.to_nat image_seq_length) 0
          ++ replicate (Z.to_nat (input_len - image_seq_length)) 1)
  end.

(** ** [read_video_pyav] *)

(** What the frame selection can raise: [indices[0]] on an empty array,
    and [np.stack] on no array or on arrays of different shapes. *)
Inductive np_exn : Type :=
  | NpIndexError
  | NpValueError.

Inductive np_result (A : Type) : Type :=
  | NpOk (a : A)
  | NpRaise (e : np_exn).

Arguments NpOk {A} a.
Arguments NpRaise {A} e.

(** The [for i, frame in enumerate(container.decode(video=0))] loop over
    the frames that are still to be decoded; [i] is the position of the
    next frame.
    [if i > end_index: break];
    [if i >= start_index and i in indices: frames.append(frame)]. *)
Fixpoint decode_loop {Frame : Type} (decoded : list Frame) (i : Z)
    (start_index end_index : Z) (indices : list Z) (frames : list Frame)
    : list Frame :=
  match decoded with
  | [] => frames
  | frame :: decoded' =>
      if end_index <? i then frames
      else
        decode_loop decoded' (i + 1) start_index end_index indices
          (if (start_index <=? i) && bool_decide (i ∈ indices)
           then frames ++ [frame] else frames)
  end.

(** [np.stack] of a list of arrays: the arrays in a row along a new first
    axis; it raises [ValueError] on an empty list and on arrays that do
    not all have the shape of the first. *)
Definition np_stack {Array Shape : Type} `{EqDecision Shape}
    (shape : Array -> Shape) (arrays : list Array) : np_result (list Array) :=
  match arrays with
  | [] => NpRaise NpValueError
  | a :: rest =>
      if forallb (fun b => bool_decide (shape b = shape a)) rest
      then NpOk arrays
      else NpRaise NpValueError
  end.

(** The container is the sequence of frames that [container.decode]
    yields after [container.seek(0)]; [to_ndarray] stands for
    [x.to_ndarray(format="rgb24")].  [indices[0]] raises on an empty
    array, and [indices[-1]] is the last index. *)
Definition read_video_pyav {Frame Array Shape : Type} `{EqDecision Shape}
    (to_ndarray : Frame -> Array) (shape : Array -> Shape)
    (container : list Frame) (indices : list Z) : np_result (list Array) :=
  match head indices, last indices with
  | Some start_index, Some end_index =>
      np_stack shape
        (to_ndarray <$> decode_loop container 0 start_index end_index indices [])
  | _, _ => NpRaise NpIndexError
  end.

(** [[container[i] for i in positions]], for positions of the container. *)
Definition frames_at {Frame : Type} (container : list Frame)
    (positions : list Z) : list Frame :=
  omap (fun i => container !! Z.to_nat i) positions.

(** [range(len(container))]. *)
Definition positions_of {Frame : Type} (container : list Frame) : list Z :=
  seqZ 0 (Z.of_nat (length container)).

(** ** Vocabulary of the specification *)

(** Ascending order, the order [numbers.sort()] establishes. *)
Abbreviation sorted := (StronglySorted Z.le).

(** [r] splits [a] into the elements [<= x] and the elements [> x]:
    what [bisect.bisect] is documented to return on a sorted list. *)
Definition split_point (a : list Z) (x : Z) (r : nat) : Prop :=
  (r <= length a)%nat /\
  (forall j v, a !! j = Some v -> (j < r)%nat -> v <= x) /\
  (forall j v, a !! j = Some v -> (r <= j)%nat -> x < v).

(** Position [i] holds the largest element that is [<= capacity], and is
    the rightmost position among those that hold this value. *)
Definition best_fit (numbers : list Z) (capacity : Z) (i : nat) : Prop :=
  exists v,
    numbers !! i = Some v /\ v <= capacity /\
    forall j w, numbers !! j = Some w -> w <= capacity ->
      w <= v /\ (w = v -> (j <= i)%nat).

(** The sequence is empty, or its smallest element exceeds the capacity. *)
Definition no_fit (numbers : list Z) (capacity : Z) : Prop :=
  numbers = [] \/
  exists m, m ∈ numbers /\ (forall w, w ∈ numbers -> m <= w) /\ capacity < m.

(** A knapsack that holds a single element larger than the capacity. *)
Definition single_oversized (capacity : Z) (b : list Z) : Prop :=
  exists v, b = [v] /\ capacity < v.

(** Every knapsack was closed only when nothing that was left fitted it:
    an element of a later knapsack does not fit what an earlier knapsack
    has left. *)
Fixpoint closed_bins (capacity : Z) (bins : list (list Z)) : Prop :=
  match bins with
  | [] => True
  | b :: rest =>
      Forall (fun w => capacity < sum b + w) (concat rest) /\
      closed_bins capacity rest
  end.

(** Descending order, the order in which a knapsack is filled. *)
Abbreviation descending := (StronglySorted Z.ge).

(** * Properties *)

(** ** The functions at work *)

Example search_for_fit_rightmost : search_for_fit [1; 3; 3; 7] 4 = 2.
Proof. reflexivity. Qed.

Example search_for_fit_nothing_fits : search_for_fit [6; 7] 5 = -1.
Proof. reflexivity. Qed.

Example greedy_knapsack_empty_input : greedy_knapsack 1 [] 5 = Some (Ok []).
Proof. reflexivity. Qed.

Example greedy_knapsack_one_to_five :
  greedy_knapsack 4 [1; 2; 3; 4; 5] 5 = Some (Ok [[5]; [4; 1]; [3; 2]]).
Proof. vm_compute. reflexivity. Qed.

(** A capacity of [0] is not special: sizes that fit it are packed. *)
Example greedy_knapsack_zero_sizes_zero_capacity :
  greedy_knapsack 2 [0; 0] 0 = Some (Ok [[0; 0]]).
Proof. vm_compute. reflexivity. Qed.

(** A negative size raises the remaining capacity, so an element above
    the capacity can then be placed. *)
Example greedy_knapsack_negative_size :
  greedy_knapsack 2 [10; -5] 5 = Some (Ok [[-5; 10]]).
Proof. vm_compute. reflexivity. Qed.

(** ** Sorted lists *)

Lemma sorted_lookup (a : list Z) (i j : nat) (v w : Z) :
  sorted a -> (i <= j)%nat -> a !! i = Some v -> a !! j = Some w -> v <= w.
Proof.
  intros Hs. revert i j. induction Hs as [|u a Hs IH Hall]; intros i j Hij Hi Hj.
  - rewrite lookup_nil in Hi. discriminate.
  - destruct i as [|i], j as [|j]; cbn in Hi, Hj; try lia.
    + injection Hi as <-. injection Hj as <-. lia.
    + injection Hi as <-. rewrite Forall_forall in Hall.
      apply Hall. eapply list_elem_of_lookup_2; eauto.
    + eapply (IH i j); eauto. lia.
Qed.

Lemma sorted_delete (a : list Z) (i : nat) : sorted a -> sorted (delete i a).
Proof.
  intros Hs. revert i. induction Hs as [|u a Hs IH Hall]; intros [|i]; simpl.
  - constructor.
  - constructor.
  - done.
  - constructor; [apply IH|]. by apply Forall_delete.
Qed.

Lemma sorted_sort (numbers : list Z) : sorted (sort numbers).
Proof. apply StronglySorted_merge_sort; apply _. Qed.

Lemma sort_Permutation (numbers : list Z) : sort numbers ≡ₚ numbers.
Proof. apply merge_sort_Permutation. Qed.

(** ** Binary search *)

Section bisect_facts.
Implicit Types (a : list Z) (x : Z) (lo hi : nat).

Lemma mid_bounds lo hi :
  (lo < hi)%nat -> (lo <= (lo + hi) `div` 2 < hi)%nat.
Proof.
  intros. pose proof (Nat.div_mod_eq (lo + hi) 2).
  pose proof (Nat.mod_upper_bound (lo + hi) 2). lia.
Qed.

(** [a[mid]] is in range in every iteration of a search that starts
    with [hi <= len(a)]. *)
Lemma bisect_mid_in_range a lo hi :
  (lo < hi <= length a)%nat -> is_Some (a !! ((lo + hi) `div` 2)%nat).
Proof.
  intros Hle. pose proof (mid_bounds lo hi). apply lookup_lt_is_Some_2. lia.
Qed.

(** On any list the loop stays between its two bounds. *)
Lemma bisect_loop_bounds a x lo hi :
  (lo <= hi)%nat ->
  (lo <= bisect_loop a x lo hi <= hi)%nat.
Proof.
  funelim (bisect_loop a x lo hi); intros Hle; try lia.
  all: pose proof (mid_bounds lo hi l); lia.
Qed.

Lemma bisect_le_length a x : (bisect a x <= length a)%nat.
Proof. unfold bisect. pose proof (bisect_loop_bounds a x 0 (length a)). lia. Qed.

(** The loop invariant of the search on a sorted list. *)
Lemma bisect_loop_sorted a x lo hi :
  sorted a ->
  (lo <= hi <= length a)%nat ->
  (forall j v, a !! j = Some v -> (j < lo)%nat -> v <= x) ->
  (forall j v, a !! j = Some v -> (hi <= j)%nat -> x < v) ->
  split_point a x (bisect_loop a x lo hi).
Proof.
  intros Hs. funelim (bisect_loop a x lo hi); intros Hle Hlo Hhi.
  - assert (lo = hi) as -> by lia. unfold split_point. split_and!; [lia|done..].
  - apply lookup_ge_None in Heq. pose proof (mid_bounds lo hi l). lia.
  - pose proof (mid_bounds lo hi l). apply H; [done|lia|done|].
    intros j w Hj Hge. pose proof (sorted_lookup a _ j v w Hs Hge Heq0 Hj). lia.
  - pose proof (mid_bounds lo hi l). apply H; [done|lia| |done].
    intros j w Hj Hlt.
    assert (j <= (lo + hi) `div` 2)%nat as Hjm by lia.
    pose proof (sorted_lookup a j _ w v Hs Hjm Hj Heq0). lia.
Qed.

Lemma bisect_sorted a x : sorted a -> split_point a x (bisect a x).
Proof.
  intros Hs. apply bisect_loop_sorted; [done|lia|intros; lia|].
  intros j v Hj Hge. apply lookup_lt_Some in Hj. lia.
Qed.

(** A split point is unique. *)
Lemma split_point_unique a x r1 r2 :
  split_point a x r1 -> split_point a x r2 -> r1 = r2.
Proof.
  intros (Hr1 & Hle1 & Hgt1) (Hr2 & Hle2 & Hgt2).
  destruct (Nat.lt_trichotomy r1 r2) as [Hlt|[->|Hlt]]; [|done|].
  - destruct (lookup_lt_is_Some_2 a r1) as [v Hv]; [lia|].
    specialize (Hle2 _ _ Hv Hlt). specialize (Hgt1 _ _ Hv (Nat.le_refl _)). lia.
  - destruct (lookup_lt_is_Some_2 a r2) as [v Hv]; [lia|].
    specialize (Hle1 _ _ Hv Hlt). specialize (Hgt2 _ _ Hv (Nat.le_refl _)). lia.
Qed.
End bisect_facts.

(** ** [search_for_fit] *)

Section search_for_fit_facts.
Implicit Types (numbers : list Z) (capacity : Z).

(** The result is the sentinel or a position of the list, whatever the
    order of the list. *)
Lemma search_for_fit_range numbers capacity :
  -1 <= search_for_fit numbers capacity < Z.of_nat (length numbers).
Proof.
  unfold search_for_fit. pose proof (bisect_le_length numbers capacity).
  destruct (Nat.eqb_spec (bisect numbers capacity) 0); lia.
Qed.

Lemma search_for_fit_lookup numbers capacity :
  search_for_fit numbers capacity <> -1 ->
  is_Some (numbers !! Z.to_nat (search_for_fit numbers capacity)).
Proof.
  intros Hne. pose proof (search_for_fit_range numbers capacity).
  apply lookup_lt_is_Some_2. lia.
Qed.

(** On a sorted pool the sentinel means that nothing fits. *)
Lemma search_for_fit_sentinel numbers capacity :
  sorted numbers ->
  search_for_fit numbers capacity = -1 <-> Forall (Z.lt capacity) numbers.
Proof.
  intros Hs. destruct (bisect_sorted numbers capacity Hs) as (Hlen & Hle & Hgt).
  unfold search_for_fit.
  destruct (Nat.eqb_spec (bisect numbers capacity) 0) as [H0|Hn0]; split; try lia.
  - intros _. apply Forall_lookup. intros j v Hj. apply (Hgt j v Hj). lia.
  - intros Hall. destruct (lookup_lt_is_Some_2 numbers 0) as [v Hv]; [lia|].
    pose proof (Forall_lookup_1 _ _ _ _ Hall Hv).
    assert (v <= capacity) by (apply (Hle 0%nat v Hv); lia). lia.
Qed.

(** Otherwise the result is the last position that holds a fitting
    element. *)
Lemma search_for_fit_fits numbers capacity :
  sorted numbers ->
  search_for_fit numbers capacity <> -1 ->
  exists v,
    numbers !! Z.to_nat (search_for_fit numbers capacity) = Some v /\
    v <= capacity /\
    (forall j w, numbers !! j = Some w -> w <= capacity ->
       (j <= Z.to_nat (search_for_fit numbers capacity))%nat /\ w <= v).
Proof.
  intros Hs Hne. destruct (search_for_fit_lookup numbers capacity Hne) as [v Hv].
  destruct (bisect_sorted numbers capacity Hs) as (Hlen & Hle & Hgt).
  exists v. split; [done|]. revert Hne Hv. unfold search_for_fit.
  destruct (Nat.eqb_spec (bisect numbers capacity) 0) as [H0|Hn0]; [done|].
  intros _ Hv. split.
  - apply (Hle _ _ Hv). lia.
  - intros j w Hj Hw.
    assert (j < bisect numbers capacity)%nat as Hlt.
    { destruct (Nat.lt_ge_cases j (bisect numbers capacity)) as [|Hge]; [done|].
      specialize (Hgt _ _ Hj Hge). lia. }
    split; [lia|]. eapply (sorted_lookup numbers j); [done| |done..]. lia.
Qed.
End search_for_fit_facts.

(** ** Sums *)

Lemma sum_nonneg (l : list Z) : Forall (Z.le 0) l -> 0 <= sum l.
Proof. unfold sum. induction 1; simpl; lia. Qed.

Lemma sum_elem_le (l : list Z) (v : Z) :
  Forall (Z.le 0) l -> v ∈ l -> v <= sum l.
Proof.
  intros Hall Hin. induction Hall as [|u l Hu Hall IH].
  - by apply not_elem_of_nil in Hin.
  - pose proof (sum_nonneg l Hall). unfold sum in *. simpl.
    apply elem_of_cons in Hin as [->|Hin]; [lia|]. specialize (IH Hin). lia.
Qed.

(** ** The inner loop *)

Section fill_knapsack_facts.
Implicit Types (numbers picked : list Z) (remaining_capacity : Z).

(** [numbers[index]] and [numbers.pop(index)] are always in range. *)
Lemma fill_knapsack_returns numbers remaining_capacity current_knapsack :
  exists numbers' knapsack,
    fill_knapsack numbers remaining_capacity current_knapsack
    = Ok (numbers', knapsack).
Proof.
  funelim (fill_knapsack numbers remaining_capacity current_knapsack).
  - eauto.
  - done.
  - destruct (search_for_fit_lookup numbers remaining_capacity n) as [v Hv].
    congruence.
Qed.

(** Nothing fits: the loop breaks at once and leaves the pool as it is. *)
Lemma fill_knapsack_break numbers remaining_capacity current_knapsack :
  search_for_fit numbers remaining_capacity = -1 ->
  fill_knapsack numbers remaining_capacity current_knapsack
  = Ok (numbers, current_knapsack).
Proof.
  intros Hs. funelim (fill_knapsack numbers remaining_capacity current_knapsack);
    done.
Qed.

(** What one run of the loop does: it moves a list [picked] of elements
    from the pool to the end of the knapsack; on a sorted pool, what was
    picked fits the capacity that remained. *)
Lemma fill_knapsack_spec numbers remaining_capacity current_knapsack
    numbers' knapsack :
  fill_knapsack numbers remaining_capacity current_knapsack
  = Ok (numbers', knapsack) ->
  exists picked,
    knapsack = current_knapsack ++ picked /\
    numbers ≡ₚ picked ++ numbers' /\
    (picked = [] -> numbers' = numbers /\
                    search_for_fit numbers remaining_capacity = -1) /\
    (sorted numbers ->
       sorted numbers' /\
       (picked <> [] \/ 0 <= remaining_capacity ->
        sum picked <= remaining_capacity)).
Proof.
  funelim (fill_knapsack numbers remaining_capacity current_knapsack);
    intros Hrun.
  - injection Hrun as <- <-. exists []. rewrite app_nil_r.
    split_and!; [done..|]. intros Hs. split; [done|].
    intros [Hne|Hge]; [by destruct Hne|]. unfold sum; simpl; lia.
  - destruct (H _ _ Hrun) as (picked & -> & Hperm & _ & Hsorted).
    exists (v :: picked). rewrite <- app_assoc. split_and!; [done| |done|].
    + rewrite (delete_Permutation _ _ _ Hv). simpl. by rewrite Hperm.
    + intros Hs.
      destruct (search_for_fit_fits numbers remaining_capacity Hs n)
        as (v' & Hv' & Hfit & _).
      assert (v' = v) as -> by congruence.
      destruct (Hsorted (sorted_delete _ _ Hs)) as [Hs' Hsum].
      split; [done|]. intros _. change (sum (v :: picked)) with (v + sum picked).
      assert (sum picked <= remaining_capacity - v) by (apply Hsum; right; lia).
      lia.
  - done.
Qed.
End fill_knapsack_facts.

(** ** The outer loop *)

Section pack_loop_facts.
Implicit Types (fuel : nat) (numbers : list Z) (capacity : Z).
Implicit Types (knapsacks bins : list (list Z)).

(** More iterations never change an answer. *)
Lemma pack_loop_fuel_mono fuel fuel' numbers capacity knapsacks r :
  (fuel <= fuel')%nat ->
  pack_loop fuel numbers capacity knapsacks = Some r ->
  pack_loop fuel' numbers capacity knapsacks = Some r.
Proof.
  revert fuel' numbers knapsacks.
  induction fuel as [|fuel IH]; intros fuel' numbers knapsacks Hle; [done|].
  destruct fuel' as [|fuel']; [lia|]. simpl.
  destruct numbers as [|u numbers]; [done|].
  destruct (fill_knapsack (u :: numbers) capacity []) as [[numbers' k]|e];
    [|done].
  apply IH. lia.
Qed.

Lemma pack_loop_never_raises fuel numbers capacity knapsacks e :
  pack_loop fuel numbers capacity knapsacks <> Some (Raise e).
Proof.
  revert numbers knapsacks.
  induction fuel as [|fuel IH]; intros numbers knapsacks; [done|]. simpl.
  destruct numbers as [|u numbers]; [done|].
  destruct (fill_knapsack_returns (u :: numbers) capacity [])
    as (numbers' & k & ->).
  apply IH.
Qed.

(** A non-empty pool in which nothing fits an empty knapsack is never
    drained: every iteration appends an empty knapsack and finds the
    same pool again. *)
Lemma pack_loop_stuck fuel numbers capacity knapsacks :
  numbers <> [] ->
  search_for_fit numbers capacity = -1 ->
  pack_loop fuel numbers capacity knapsacks = None.
Proof.
  intros Hne Hfit. revert knapsacks.
  induction fuel as [|fuel IH]; intros knapsacks; [done|]. simpl.
  destruct numbers as [|u numbers]; [done|].
  rewrite fill_knapsack_break by done. apply IH.
Qed.

(** What a returned packing looks like. *)
Lemma pack_loop_spec fuel numbers capacity knapsacks bins :
  sorted numbers ->
  pack_loop fuel numbers capacity knapsacks = Some (Ok bins) ->
  exists new,
    bins = knapsacks ++ new /\
    concat new ≡ₚ numbers /\
    Forall (fun b => b <> [] /\ sum b <= capacity) new.
Proof.
  revert numbers knapsacks.
  induction fuel as [|fuel IH]; intros numbers knapsacks Hs; [done|]. simpl.
  destruct numbers as [|u numbers].
  { intros [= <-]. exists []. by rewrite app_nil_r. }
  destruct (fill_knapsack (u :: numbers) capacity []) as [[numbers' k]|e] eqn:Hfill;
    [|done].
  intros Hrun.
  destruct (fill_knapsack_spec _ _ _ _ _ Hfill)
    as (picked & -> & Hperm & Hnil & Hsorted).
  destruct (Hsorted Hs) as [Hs' Hsum]. simpl in *.
  destruct picked as [|v picked].
  { destruct Hnil as [-> Hfit]; [done|].
    by rewrite pack_loop_stuck in Hrun. }
  destruct (IH _ _ Hs' Hrun) as (new & -> & Hnew & Hall).
  exists ((v :: picked) :: new). rewrite <- app_assoc. split_and!; [done| |].
  - simpl. by rewrite Hnew, Hperm.
  - constructor; [|done]. split; [done|]. apply Hsum. by left.
Qed.

(** When every element fits an empty knapsack, each iteration removes
    at least one element, and the loop ends. *)
Lemma pack_loop_terminates fuel numbers capacity knapsacks :
  sorted numbers ->
  Forall (fun v => v <= capacity) numbers ->
  (length numbers < fuel)%nat ->
  exists bins, pack_loop fuel numbers capacity knapsacks = Some (Ok bins).
Proof.
  revert numbers knapsacks.
  induction fuel as [|fuel IH]; intros numbers knapsacks Hs Hall Hfuel; [lia|].
  simpl. destruct numbers as [|u numbers]; [eauto|].
  destruct (fill_knapsack_returns (u :: numbers) capacity [])
    as (numbers' & k & Hfill). rewrite Hfill.
  destruct (fill_knapsack_spec _ _ _ _ _ Hfill)
    as (picked & -> & Hperm & Hnil & Hsorted).
  destruct (Hsorted Hs) as [Hs' _].
  assert (picked <> []) as Hpicked.
  { intros ->. destruct Hnil as [_ Hfit]; [done|].
    apply search_for_fit_sentinel in Hfit; [|done].
    apply Forall_cons_1 in Hfit as [Hu _]. apply Forall_cons_1 in Hall as [Hu' _].
    lia. }
  apply IH; [done| |].
  - rewrite Hperm in Hall. by apply Forall_app in Hall as [_ Hall].
  - apply Permutation_length in Hperm. rewrite length_app in Hperm.
    destruct picked; [done|]. simpl in *. lia.
Qed.

(** With non-negative sizes, an element above the capacity is never
    picked, so the pool never becomes empty. *)
Lemma pack_loop_oversized fuel numbers capacity knapsacks :
  sorted numbers ->
  Forall (Z.le 0) numbers ->
  Exists (Z.lt capacity) numbers ->
  pack_loop fuel numbers capacity knapsacks = None.
Proof.
  revert numbers knapsacks.
  induction fuel as [|fuel IH]; intros numbers knapsacks Hs Hpos Hbig; [done|].
  simpl. destruct numbers as [|u numbers]; [by apply Exists_nil in Hbig|].
  destruct (fill_knapsack_returns (u :: numbers) capacity [])
    as (numbers' & k & Hfill). rewrite Hfill.
  destruct (fill_knapsack_spec _ _ _ _ _ Hfill)
    as (picked & -> & Hperm & Hnil & Hsorted).
  destruct (Hsorted Hs) as [Hs' Hsum].
  rewrite Hperm in Hpos, Hbig. apply Forall_app in Hpos as [Hpos1 Hpos2].
  apply IH; [done..|].
  apply Exists_app in Hbig as [Hbig|Hbig]; [|done].
  apply Exists_exists in Hbig as (v & Hv & Hgt).
  assert (picked <> []) as Hne by (intros ->; by apply not_elem_of_nil in Hv).
  pose proof (sum_elem_le picked v Hpos1 Hv). specialize (Hsum (or_introl Hne)).
  lia.
Qed.
End pack_loop_facts.

(** ** A capacity that holds the whole pool *)

Lemma sum_Permutation (l1 l2 : list Z) : l1 ≡ₚ l2 -> sum l1 = sum l2.
Proof. unfold sum. induction 1; simpl; lia. Qed.

(** With non-negative sizes whose total fits the remaining capacity, one
    run of the inner loop drains the pool. *)
Lemma fill_knapsack_drains (numbers : list Z) (remaining_capacity : Z)
    (current_knapsack numbers' knapsack : list Z) :
  sorted numbers ->
  Forall (Z.le 0) numbers ->
  sum numbers <= remaining_capacity ->
  fill_knapsack numbers remaining_capacity current_knapsack
  = Ok (numbers', knapsack) ->
  numbers' = [].
Proof.
  funelim (fill_knapsack numbers remaining_capacity current_knapsack);
    intros Hs Hpos Hsum Hrun.
  - injection Hrun as <- <-. destruct numbers as [|u numbers]; [done|].
    pose proof (proj1 (search_for_fit_sentinel _ _ Hs) e) as Hall.
    apply Forall_cons_1 in Hall as [Hu _].
    assert (u <= sum (u :: numbers)) by (apply sum_elem_le; [done|by left]).
    lia.
  - eapply H; [by apply sorted_delete|by apply Forall_delete| |done].
    pose proof (sum_Permutation _ _ (delete_Permutation _ _ _ Hv)) as Heqsum.
    change (sum (v :: ?l)) with (v + sum l) in Heqsum. lia.
  - done.
Qed.

Lemma pack_loop_single (fuel : nat) (numbers : list Z) (capacity : Z)
    (knapsacks bins : list (list Z)) :
  sorted numbers ->
  Forall (Z.le 0) numbers ->
  sum numbers <= capacity ->
  pack_loop fuel numbers capacity knapsacks = Some (Ok bins) ->
  (length bins <= length knapsacks + 1)%nat /\
  (numbers = [] -> bins = knapsacks).
Proof.
  intros Hs Hpos Hsum. destruct fuel as [|fuel]; [done|]. simpl.
  destruct numbers as [|u numbers]; [intros [= <-]; split; [lia|done]|].
  destruct (fill_knapsack (u :: numbers) capacity []) as [[numbers' k]|e] eqn:Hfill;
    [|done].
  rewrite (fill_knapsack_drains _ _ _ _ _ Hs Hpos Hsum Hfill).
  destruct fuel as [|fuel]; [done|]. simpl. intros [= <-].
  rewrite length_app. simpl. split; [lia|done].
Qed.

(** * The claims of the specification *)

Section greedy_knapsack_facts.
Implicit Types (fuel : nat) (numbers : list Z) (capacity : Z).
Implicit Types (bins : list (list Z)).

Lemma greedy_knapsack_spec fuel numbers capacity bins :
  greedy_knapsack fuel numbers capacity = Some (Ok bins) ->
  concat bins ≡ₚ numbers /\
  Forall (fun b => b <> [] /\ sum b <= capacity) bins.
Proof.
  unfold greedy_knapsack. intros Hrun.
  destruct (pack_loop_spec _ _ _ _ _ (sorted_sort numbers) Hrun)
    as (new & -> & Hperm & Hall).
  split; [|done]. simpl. by rewrite Hperm, sort_Permutation.
Qed.

Lemma greedy_knapsack_returns numbers capacity :
  Forall (fun v => v <= capacity) numbers ->
  exists bins,
    greedy_knapsack (S (length numbers)) numbers capacity = Some (Ok bins).
Proof.
  intros Hall. unfold greedy_knapsack. apply pack_loop_terminates.
  - apply sorted_sort.
  - by rewrite sort_Permutation.
  - rewrite (Permutation_length (sort_Permutation numbers)). lia.
Qed.

Lemma greedy_knapsack_diverges fuel numbers capacity :
  Forall (Z.le 0) numbers ->
  Exists (Z.lt capacity) numbers ->
  greedy_knapsack fuel numbers capacity = None.
Proof.
  intros Hpos Hbig. unfold greedy_knapsack. apply pack_loop_oversized.
  - apply sorted_sort.
  - by rewrite sort_Permutation.
  - by rewrite sort_Permutation.
Qed.

Lemma greedy_knapsack_never_raises fuel numbers capacity e :
  greedy_knapsack fuel numbers capacity <> Some (Raise e).
Proof. apply pack_loop_never_raises. Qed.

(** The answer does not depend on the bound, nor on the order in which
    the caller lists the sizes. *)
Lemma greedy_knapsack_functional fuel1 fuel2 numbers1 numbers2 capacity r1 r2 :
  numbers1 ≡ₚ numbers2 ->
  greedy_knapsack fuel1 numbers1 capacity = Some r1 ->
  greedy_knapsack fuel2 numbers2 capacity = Some r2 ->
  r1 = r2.
Proof.
  unfold greedy_knapsack. intros Hperm Hrun1 Hrun2.
  assert (sort numbers1 = sort numbers2) as Hsort.
  { apply (StronglySorted_unique Z.le); [apply sorted_sort..|].
    by rewrite !sort_Permutation. }
  rewrite Hsort in Hrun1.
  apply (pack_loop_fuel_mono _ (fuel1 `max` fuel2)%nat) in Hrun1; [|lia].
  apply (pack_loop_fuel_mono _ (fuel1 `max` fuel2)%nat) in Hrun2; [|lia].
  congruence.
Qed.
End greedy_knapsack_facts.

(** C1. Conservation: the knapsacks of a returned packing hold, taken
    together, exactly the input sizes, each as often as the input has it;
    and a packing is returned whenever every size fits the capacity. *)
Theorem greedy_knapsack_conservation (numbers : list Z) (capacity : Z) :
  (forall fuel bins,
     greedy_knapsack fuel numbers capacity = Some (Ok bins) ->
     concat bins ≡ₚ numbers) /\
  (Forall (fun v => v <= capacity) numbers ->
   exists fuel bins,
     greedy_knapsack fuel numbers capacity = Some (Ok bins) /\
     concat bins ≡ₚ numbers).
Proof.
  split.
  - intros fuel bins Hrun. by apply greedy_knapsack_spec in Hrun as [? _].
  - intros Hall. destruct (greedy_knapsack_returns numbers capacity Hall)
      as [bins Hrun].
    exists (S (length numbers)), bins. split; [done|].
    by apply greedy_knapsack_spec in Hrun as [? _].
Qed.

Lemma greedy_knapsack_conservation_witness :
  greedy_knapsack 4 [3; 1; 5; 2; 4] 5 = Some (Ok [[5]; [4; 1]; [3; 2]]) /\
  concat [[5]; [4; 1]; [3; 2]] ≡ₚ [3; 1; 5; 2; 4].
Proof.
  split; [vm_compute; reflexivity|].
  apply (proj1 (greedy_knapsack_conservation [3; 1; 5; 2; 4] 5) 4%nat).
  vm_compute; reflexivity.
Defined.

(** C2. Capacity bound: in a returned packing every knapsack, other than
    one holding a single oversized element, sums to at most the capacity;
    and a packing is returned whenever every size fits the capacity. *)
Theorem greedy_knapsack_capacity_bound (numbers : list Z) (capacity : Z) :
  (forall fuel bins b,
     greedy_knapsack fuel numbers capacity = Some (Ok bins) ->
     b ∈ bins ->
     ~ single_oversized capacity b ->
     sum b <= capacity) /\
  (Forall (fun v => v <= capacity) numbers ->
   exists fuel bins,
     greedy_knapsack fuel numbers capacity = Some (Ok bins) /\
     Forall (fun b => sum b <= capacity) bins).
Proof.
  split.
  - intros fuel bins b Hrun Hb _.
    apply greedy_knapsack_spec in Hrun as [_ Hall].
    rewrite Forall_forall in Hall. by apply Hall.
  - intros Hfit. destruct (greedy_knapsack_returns numbers capacity Hfit)
      as [bins Hrun].
    exists (S (length numbers)), bins. split; [done|].
    apply greedy_knapsack_spec in Hrun as [_ Hall].
    eapply Forall_impl; [done|]. by intros b [_ ?].
Qed.

Lemma greedy_knapsack_capacity_bound_witness :
  greedy_knapsack 4 [3; 1; 5; 2; 4] 5 = Some (Ok [[5]; [4; 1]; [3; 2]]) /\
  [4; 1] ∈ [[5]; [4; 1]; [3; 2]] /\
  ~ single_oversized 5 [4; 1] /\
  sum [4; 1] <= 5.
Proof.
  assert (greedy_knapsack 4 [3; 1; 5; 2; 4] 5 = Some (Ok [[5]; [4; 1]; [3; 2]]))
    as Hrun by (vm_compute; reflexivity).
  assert ([4; 1] ∈ [[5]; [4; 1]; [3; 2]]) as Hin
    by (apply elem_of_cons; right; apply elem_of_cons; by left).
  assert (~ single_oversized 5 [4; 1]) as Hno
    by (intros (v & Hv & _); discriminate Hv).
  split_and!; [done..|].
  exact (proj1 (greedy_knapsack_capacity_bound [3; 1; 5; 2; 4] 5)
           4%nat _ _ Hrun Hin Hno).
Defined.

(** C3 (as stated, refuted).  The call on [[10]] with capacity [5] never
    returns [[[10]]]: the oversized element is not placed. *)
Lemma oversized_item_not_placed :
  ~ exists fuel, greedy_knapsack fuel [10] 5 = Some (Ok [[10]]).
Proof.
  intros [fuel Hrun]. rewrite greedy_knapsack_diverges in Hrun; [done|..].
  - repeat constructor; lia.
  - apply Exists_cons_hd. lia.
Qed.

(** C3 (amended).  Among non-negative sizes, an element larger than the
    capacity is never placed in a knapsack: the pool is never drained and
    the call does not come back, however long it runs. *)
Theorem greedy_knapsack_oversized_never_placed
    (numbers : list Z) (capacity : Z) :
  Forall (Z.le 0) numbers ->
  Exists (Z.lt capacity) numbers ->
  forall fuel, greedy_knapsack fuel numbers capacity = None.
Proof. intros Hpos Hbig fuel. by apply greedy_knapsack_diverges. Qed.

Lemma greedy_knapsack_oversized_never_placed_witness :
  Forall (Z.le 0) [10] /\ Exists (Z.lt 5) [10] /\
  forall fuel, greedy_knapsack fuel [10] 5 = None.
Proof.
  assert (Forall (Z.le 0) [10]) as Hpos by (repeat constructor; lia).
  assert (Exists (Z.lt 5) [10]) as Hbig by (apply Exists_cons_hd; lia).
  split_and!; [done..|].
  exact (greedy_knapsack_oversized_never_placed [10] 5 Hpos Hbig).
Defined.

(** C4 (as stated, refuted).  A non-negative size and a positive
    capacity, and yet the call never completes. *)
Lemma positive_capacity_call_never_completes :
  Forall (Z.le 0) [10] /\ 0 < 5 /\
  ~ exists fuel r, greedy_knapsack fuel [10] 5 = Some r.
Proof.
  split_and!; [repeat constructor; lia|lia|].
  intros (fuel & r & Hrun). rewrite greedy_knapsack_diverges in Hrun; [done|..].
  - repeat constructor; lia.
  - apply Exists_cons_hd. lia.
Qed.

(** C4 (amended).  The call completes whenever every size is at most the
    capacity, whatever the sign of the capacity; and with non-negative
    sizes these are the only inputs on which it completes. *)
Theorem greedy_knapsack_terminates (numbers : list Z) (capacity : Z) :
  (Forall (fun v => v <= capacity) numbers ->
   exists fuel bins, greedy_knapsack fuel numbers capacity = Some (Ok bins)) /\
  (Forall (Z.le 0) numbers ->
   (exists fuel bins, greedy_knapsack fuel numbers capacity = Some (Ok bins)) ->
   Forall (fun v => v <= capacity) numbers).
Proof.
  split.
  - intros Hfit. exists (S (length numbers)). by apply greedy_knapsack_returns.
  - intros Hpos (fuel & bins & Hrun).
    destruct (decide (Forall (fun v => v <= capacity) numbers)) as [|Hno]; [done|].
    apply not_Forall_Exists in Hno; [|apply _].
    rewrite greedy_knapsack_diverges in Hrun; [done..|].
    eapply Exists_impl; [done|]. simpl. intros; lia.
Qed.

Lemma greedy_knapsack_terminates_witness :
  Forall (fun v => v <= 5) [3; 1; 5; 2; 4] /\
  exists fuel bins, greedy_knapsack fuel [3; 1; 5; 2; 4] 5 = Some (Ok bins).
Proof.
  assert (Forall (fun v => v <= 5) [3; 1; 5; 2; 4]) as Hfit
    by (repeat constructor; lia).
  split; [done|].
  exact (proj1 (greedy_knapsack_terminates [3; 1; 5; 2; 4] 5) Hfit).
Defined.

(** C5. [search_for_fit] on an ascending sequence: the sentinel [-1] when
    the sequence is empty or its smallest element exceeds the capacity,
    and otherwise the position of the largest element that fits, the
    rightmost one among equal values. *)
Theorem search_for_fit_correct (numbers : list Z) (capacity : Z) :
  sorted numbers ->
  (no_fit numbers capacity -> search_for_fit numbers capacity = -1) /\
  (~ no_fit numbers capacity ->
   exists i, search_for_fit numbers capacity = Z.of_nat i /\
             best_fit numbers capacity i).
Proof.
  intros Hs. split.
  - intros Hno. apply search_for_fit_sentinel; [done|].
    destruct Hno as [->|(m & _ & Hmin & Hm)]; [constructor|].
    apply Forall_forall. intros w Hw. specialize (Hmin w Hw). lia.
  - intros Hfit.
    assert (search_for_fit numbers capacity <> -1) as Hne.
    { intros Heq. apply Hfit. apply search_for_fit_sentinel in Heq; [|done].
      destruct numbers as [|u numbers]; [by left|]. right. exists u.
      apply Forall_cons_1 in Heq as [Hu _].
      apply StronglySorted_cons in Hs as [Hmin _]. rewrite Forall_forall in Hmin.
      split_and!; [by left| |done].
      intros w [->|Hw]%elem_of_cons; [lia|by apply Hmin]. }
    destruct (search_for_fit_fits numbers capacity Hs Hne)
      as (v & Hv & Hle & Hmax).
    pose proof (search_for_fit_range numbers capacity).
    exists (Z.to_nat (search_for_fit numbers capacity)). split; [lia|].
    exists v. split_and!; [done..|].
    intros j w Hj Hw. destruct (Hmax j w Hj Hw). done.
Qed.

Lemma search_for_fit_correct_witness :
  sorted [1; 3; 3; 7] /\
  (no_fit [1; 3; 3; 7] 4 -> search_for_fit [1; 3; 3; 7] 4 = -1) /\
  (~ no_fit [1; 3; 3; 7] 4 ->
   exists i, search_for_fit [1; 3; 3; 7] 4 = Z.of_nat i /\
             best_fit [1; 3; 3; 7] 4 i).
Proof.
  assert (sorted [1; 3; 3; 7]) as Hs by (repeat constructor; lia).
  split; [done|]. exact (search_for_fit_correct [1; 3; 3; 7] 4 Hs).
Defined.



(** C7 (as stated, refuted).  With capacity [0] the call on [[1; 2; 3]]
    raises nothing: it never completes in any way. *)
Lemma zero_capacity_not_rejected :
  ~ exists fuel r, greedy_knapsack fuel [1; 2; 3] 0 = Some r.
Proof.
  intros (fuel & r & Hrun). rewrite greedy_knapsack_diverges in Hrun; [done|..].
  - repeat constructor; lia.
  - apply Exists_cons_hd. lia.
Qed.

(** C7 (amended).  A capacity [<= 0] is not rejected: no call raises, and
    with non-negative sizes of which one is positive the call loops
    without end. *)
Theorem greedy_knapsack_capacity_unchecked (numbers : list Z) (capacity : Z) :
  capacity <= 0 ->
  (forall fuel e, greedy_knapsack fuel numbers capacity <> Some (Raise e)) /\
  (Forall (Z.le 0) numbers -> Exists (Z.lt 0) numbers ->
   forall fuel, greedy_knapsack fuel numbers capacity = None).
Proof.
  intros Hcap. split.
  - intros fuel e. apply greedy_knapsack_never_raises.
  - intros Hpos Hbig fuel. apply greedy_knapsack_diverges; [done|].
    eapply Exists_impl; [done|]. simpl. intros; lia.
Qed.

Lemma greedy_knapsack_capacity_unchecked_witness :
  0 <= 0 /\
  (forall fuel e, greedy_knapsack fuel [1; 2; 3] 0 <> Some (Raise e)) /\
  (Forall (Z.le 0) [1; 2; 3] -> Exists (Z.lt 0) [1; 2; 3] ->
   forall fuel, greedy_knapsack fuel [1; 2; 3] 0 = None).
Proof.
  assert (0 <= 0) as Hcap by lia.
  split; [done|]. exact (greedy_knapsack_capacity_unchecked [1; 2; 3] 0 Hcap).
Defined.

(** C8. Determinism: two calls on equal collections of sizes with equal
    capacities that both return give the same number of knapsacks and,
    knapsack for knapsack, the same sums. *)
Theorem greedy_knapsack_deterministic (numbers1 numbers2 : list Z)
    (capacity1 capacity2 : Z) (fuel1 fuel2 : nat)
    (bins1 bins2 : list (list Z)) :
  numbers1 = numbers2 ->
  capacity1 = capacity2 ->
  greedy_knapsack fuel1 numbers1 capacity1 = Some (Ok bins1) ->
  greedy_knapsack fuel2 numbers2 capacity2 = Some (Ok bins2) ->
  length bins1 = length bins2 /\ sum <$> bins1 = sum <$> bins2.
Proof.
  intros -> -> Hrun1 Hrun2.
  assert (Ok bins1 = Ok bins2) as [= ->]; [|done].
  by eapply (greedy_knapsack_functional fuel1 fuel2 numbers2 numbers2).
Qed.

Lemma greedy_knapsack_deterministic_witness :
  exists bins1 bins2,
    greedy_knapsack 4 [3; 1; 5; 2; 4] 5 = Some (Ok bins1) /\
    greedy_knapsack 9 [3; 1; 5; 2; 4] 5 = Some (Ok bins2) /\
    length bins1 = length bins2 /\ sum <$> bins1 = sum <$> bins2.
Proof.
  exists [[5]; [4; 1]; [3; 2]], [[5]; [4; 1]; [3; 2]].
  assert (greedy_knapsack 4 [3; 1; 5; 2; 4] 5 = Some (Ok [[5]; [4; 1]; [3; 2]]))
    as Hrun1 by (vm_compute; reflexivity).
  assert (greedy_knapsack 9 [3; 1; 5; 2; 4] 5 = Some (Ok [[5]; [4; 1]; [3; 2]]))
    as Hrun2 by (vm_compute; reflexivity).
  split_and!; [done..| |];
    apply (greedy_knapsack_deterministic _ _ _ _ _ _ _ _ eq_refl eq_refl Hrun1 Hrun2).
Defined.

(** C9. Token types: for [0 <= image_seq_length <= input_len] the result
    has length [input_len]; its first [image_seq_length] entries are [0]
    and all the others are [1]. *)
Theorem get_paligemma_token_type_ids_labels (input_len seq_len : Z)
    (processor : ProcessorMixin) :
  image_seq_length processor = Some seq_len ->
  0 <= seq_len <= input_len ->
  exists ids,
    get_paligemma_token_type_ids input_len processor = Ok ids /\
    Z.of_nat (length ids) = input_len /\
    (forall i, 0 <= i < seq_len -> ids !! Z.to_nat i = Some 0) /\
    (forall i, seq_len <= i < input_len -> ids !! Z.to_nat i = Some 1).
Proof.
  intros Hattr Hrange. unfold get_paligemma_token_type_ids. rewrite Hattr.
  eexists. split; [done|]. split_and!.
  - rewrite length_app, !length_replicate. lia.
  - intros i Hi. rewrite lookup_app_l by (rewrite length_replicate; lia).
    apply lookup_replicate_2. lia.
  - intros i Hi. rewrite lookup_app_r by (rewrite length_replicate; lia).
    apply lookup_replicate_2. rewrite length_replicate. lia.
Qed.

Lemma get_paligemma_token_type_ids_labels_witness :
  exists ids,
    get_paligemma_token_type_ids 5 {| image_seq_length := Some 2 |} = Ok ids /\
    Z.of_nat (length ids) = 5 /\
    (forall i, 0 <= i < 2 -> ids !! Z.to_nat i = Some 0) /\
    (forall i, 2 <= i < 5 -> ids !! Z.to_nat i = Some 1).
Proof.
  apply (get_paligemma_token_type_ids_labels 5 2 {| image_seq_length := Some 2 |}).
  - reflexivity.
  - lia.
Defined.

(** C10. No empty knapsack: every knapsack of a returned packing holds at
    least one element. *)
Theorem greedy_knapsack_no_empty_bin (fuel : nat) (numbers : list Z)
    (capacity : Z) (bins : list (list Z)) :
  greedy_knapsack fuel numbers capacity = Some (Ok bins) ->
  Forall (fun b => b <> []) bins.
Proof.
  intros Hrun. apply greedy_knapsack_spec in Hrun as [_ Hall].
  eapply Forall_impl; [done|]. by intros b [? _].
Qed.

Lemma greedy_knapsack_no_empty_bin_witness :
  greedy_knapsack 4 [3; 1; 5; 2; 4] 5 = Some (Ok [[5]; [4; 1]; [3; 2]]) /\
  Forall (fun b => b <> []) [[5]; [4; 1]; [3; 2]].
Proof.
  assert (greedy_knapsack 4 [3; 1; 5; 2; 4] 5 = Some (Ok [[5]; [4; 1]; [3; 2]]))
    as Hrun by (vm_compute; reflexivity).
  split; [done|].
  exact (greedy_knapsack_no_empty_bin 4 [3; 1; 5; 2; 4] 5 _ Hrun).
Defined.

(** * Further properties of the packing code *)

(** ** More on sums and orders *)

Lemma sum_app (l1 l2 : list Z) : sum (l1 ++ l2) = sum l1 + sum l2.
Proof. unfold sum. induction l1 as [|u l1 IH]; simpl; lia. Qed.

Lemma sum_concat_le (capacity : Z) (bins : list (list Z)) :
  Forall (fun b => sum b <= capacity) bins ->
  sum (concat bins) <= capacity * Z.of_nat (length bins).
Proof.
  induction 1 as [|b bins Hb Hall IH]; [unfold sum; simpl; lia|].
  simpl concat. rewrite sum_app. simpl length. lia.
Qed.

Lemma length_concat_nonempty (bins : list (list Z)) :
  Forall (fun b => b <> []) bins -> (length bins <= length (concat bins))%nat.
Proof.
  induction 1 as [|b bins Hb Hall IH]; [done|].
  simpl. rewrite length_app. destruct b; [done|]. simpl. lia.
Qed.

Lemma descending_reverse (l : list Z) : descending l -> sorted (reverse l).
Proof.
  induction 1 as [|u l Hl IH Hall]; [constructor|].
  rewrite reverse_cons. apply StronglySorted_app. split_and!.
  - intros w1 w2 Hw1 Hw2. rewrite elem_of_reverse in Hw1.
    apply list_elem_of_singleton in Hw2 as ->.
    rewrite Forall_forall in Hall. specialize (Hall _ Hw1). lia.
  - done.
  - repeat constructor.
Qed.

(** The number of elements [<= x] of a list that [r] splits is [r]. *)
Lemma split_point_count (a : list Z) (x : Z) (r : nat) :
  split_point a x r -> length (filter (fun v => v <= x) a) = r.
Proof.
  revert r. induction a as [|u a IH]; intros r (Hlen & Hle & Hgt).
  - simpl in Hlen. by destruct r; [|lia].
  - destruct r as [|r].
    + rewrite filter_cons_False.
      * apply (IH 0%nat). split_and!; [lia|intros; lia|].
        intros j v Hj _. apply (Hgt (S j) v); [done|lia].
      * specialize (Hgt 0%nat u eq_refl). lia.
    + rewrite filter_cons_True by (apply (Hle 0%nat u eq_refl); lia).
      simpl. f_equal. apply IH. simpl in Hlen. split_and!; [lia| |].
      * intros j v Hj Hlt. apply (Hle (S j) v); [done|lia].
      * intros j v Hj Hge. apply (Hgt (S j) v); [done|lia].
Qed.

Lemma length_filter_le_mono (a : list Z) (x y : Z) :
  x <= y ->
  (length (filter (fun v => (v <= x)%Z) a)
   <= length (filter (fun v => (v <= y)%Z) a))%nat.
Proof.
  intros Hxy. induction a as [|u a IH]; [done|].
  destruct (decide (u <= x)) as [Hu|Hu].
  - rewrite !filter_cons_True by lia. simpl. lia.
  - rewrite (filter_cons_False _ u a Hu). rewrite filter_cons.
    destruct (decide (u <= y)); simpl; lia.
Qed.

(** ** The inner loop picks greedily *)

(** At the [break], nothing that is left in the pool fits what is left
    of the capacity. *)
Lemma fill_knapsack_closed (numbers : list Z) (remaining_capacity : Z)
    (current_knapsack numbers' knapsack : list Z) :
  sorted numbers ->
  fill_knapsack numbers remaining_capacity current_knapsack
  = Ok (numbers', knapsack) ->
  Forall (Z.lt (remaining_capacity + sum current_knapsack - sum knapsack))
    numbers'.
Proof.
  funelim (fill_knapsack numbers remaining_capacity current_knapsack);
    intros Hs Hrun.
  - injection Hrun as <- <-.
    pose proof (proj1 (search_for_fit_sentinel _ _ Hs) e) as Hall.
    eapply Forall_impl; [done|]. simpl. intros; lia.
  - specialize (H _ _ (sorted_delete _ _ Hs) Hrun).
    rewrite sum_app in H. change (sum [v]) with (v + 0) in H.
    eapply Forall_impl; [done|]. simpl. intros; lia.
  - done.
Qed.

(** With non-negative sizes the remaining capacity only shrinks, so the
    picks of one run come in descending order. *)
Lemma fill_knapsack_descending (numbers : list Z) (remaining_capacity : Z)
    (current_knapsack numbers' knapsack : list Z) :
  sorted numbers ->
  Forall (Z.le 0) numbers ->
  fill_knapsack numbers remaining_capacity current_knapsack
  = Ok (numbers', knapsack) ->
  exists picked,
    knapsack = current_knapsack ++ picked /\
    descending picked /\
    Forall (fun w => w <= remaining_capacity /\ w ∈ numbers) picked.
Proof.
  funelim (fill_knapsack numbers remaining_capacity current_knapsack);
    intros Hs Hpos Hrun.
  - injection Hrun as <- <-. exists []. rewrite app_nil_r.
    split_and!; [done|constructor|constructor].
  - destruct (H _ _ (sorted_delete _ _ Hs) (Forall_delete _ _ _ Hpos) Hrun)
      as (picked & -> & Hdesc & Hall).
    destruct (search_for_fit_fits numbers remaining_capacity Hs n)
      as (v' & Hv' & Hfit & Hmax).
    assert (v' = v) as -> by congruence.
    assert (0 <= v) as Hv0.
    { rewrite Forall_forall in Hpos. apply Hpos.
      eapply list_elem_of_lookup_2; eauto. }
    assert (Forall (fun w => w <= remaining_capacity /\ w ∈ numbers) picked)
      as Hall'.
    { eapply Forall_impl; [done|]. simpl. intros w [Hw Hin].
      split; [lia|]. by eapply list_elem_of_delete_inv. }
    exists (v :: picked). rewrite <- app_assoc. split_and!; [done| |].
    + constructor; [done|]. eapply Forall_impl; [exact Hall'|]. simpl.
      intros w [Hw Hin]. apply list_elem_of_lookup_1 in Hin as [j Hj].
      destruct (Hmax j w Hj Hw). lia.
    + constructor; [|done]. split; [done|].
      eapply list_elem_of_lookup_2; eauto.
  - done.
Qed.

(** ** The outer loop keeps both facts for every knapsack *)

Lemma pack_loop_greedy (fuel : nat) (numbers : list Z) (capacity : Z)
    (knapsacks bins : list (list Z)) :
  sorted numbers ->
  pack_loop fuel numbers capacity knapsacks = Some (Ok bins) ->
  exists new,
    bins = knapsacks ++ new /\
    concat new ≡ₚ numbers /\
    closed_bins capacity new /\
    (Forall (Z.le 0) numbers -> Forall descending new).
Proof.
  revert numbers knapsacks.
  induction fuel as [|fuel IH]; intros numbers knapsacks Hs; [done|]. simpl.
  destruct numbers as [|u numbers].
  { intros [= <-]. exists []. rewrite app_nil_r.
    split_and!; [done..|]. constructor. }
  destruct (fill_knapsack (u :: numbers) capacity []) as [[numbers' k]|e] eqn:Hfill;
    [|done].
  intros Hrun.
  destruct (fill_knapsack_spec _ _ _ _ _ Hfill)
    as (picked & Hk & Hperm & _ & Hsorted).
  simpl in Hk. subst picked.
  destruct (Hsorted Hs) as [Hs' _].
  pose proof (fill_knapsack_closed _ _ _ _ _ Hs Hfill) as Hclosed.
  destruct (IH _ _ Hs' Hrun) as (new & -> & Hnew & Hcl & Hdesc).
  exists (k :: new). rewrite <- app_assoc. split_and!; [done| | |].
  - simpl. by rewrite Hnew, Hperm.
  - simpl. split; [|done]. rewrite Hnew.
    eapply Forall_impl; [done|]. simpl. intros; lia.
  - intros Hpos. constructor.
    + destruct (fill_knapsack_descending _ _ _ _ _ Hs Hpos Hfill)
        as (picked & Hk & Hd & _). simpl in Hk. by subst picked.
    + apply Hdesc. rewrite Hperm in Hpos. by apply Forall_app in Hpos as [_ ?].
Qed.

Lemma greedy_knapsack_greedy (fuel : nat) (numbers : list Z) (capacity : Z)
    (bins : list (list Z)) :
  greedy_knapsack fuel numbers capacity = Some (Ok bins) ->
  closed_bins capacity bins /\
  (Forall (Z.le 0) numbers -> Forall descending bins).
Proof.
  unfold greedy_knapsack. intros Hrun.
  destruct (pack_loop_greedy _ _ _ _ _ (sorted_sort numbers) Hrun)
    as (new & -> & _ & Hcl & Hdesc).
  split; [done|]. intros Hpos. apply Hdesc. by rewrite sort_Permutation.
Qed.

Lemma elem_of_concat_2 (bins : list (list Z)) (b : list Z) (w : Z) :
  w ∈ b -> b ∈ bins -> w ∈ concat bins.
Proof.
  intros Hw. induction bins as [|b0 bins IH]; intros Hb.
  - by apply not_elem_of_nil in Hb.
  - simpl. apply elem_of_app. apply elem_of_cons in Hb as [<-|Hb]; [by left|].
    right. by apply IH.
Qed.

Lemma closed_bins_lookup (capacity : Z) (bins : list (list Z)) (i j : nat)
    (b b' : list Z) (w : Z) :
  closed_bins capacity bins ->
  bins !! i = Some b -> bins !! j = Some b' -> (i < j)%nat -> w ∈ b' ->
  capacity < sum b + w.
Proof.
  revert i j. induction bins as [|b0 bins IH]; intros i j Hcl Hi Hj Hij Hw.
  - rewrite lookup_nil in Hi. discriminate.
  - destruct Hcl as [Hhead Hrest]. destruct j as [|j]; [lia|]. cbn in Hj.
    destruct i as [|i]; cbn in Hi.
    + injection Hi as <-. rewrite Forall_forall in Hhead. apply Hhead.
      apply (elem_of_concat_2 _ b'); [done|].
      eapply list_elem_of_lookup_2; eauto.
    + apply (IH i j); [done..|lia|done].
Qed.

Lemma bisect_count (a : list Z) (x : Z) :
  sorted a -> bisect a x = length (filter (fun v => v <= x) a).
Proof. intros Hs. symmetry. by apply split_point_count, bisect_sorted. Qed.

(** ** What [search_for_fit] returns *)

(** X1. On any list, sorted or not, [search_for_fit] returns the sentinel
    or a position that is in range: indexing the list with a result other
    than [-1] cannot fail. *)
Theorem search_for_fit_index_in_range (numbers : list Z) (capacity : Z) :
  search_for_fit numbers capacity = -1 \/
  (0 <= search_for_fit numbers capacity /\
   is_Some (numbers !! Z.to_nat (search_for_fit numbers capacity))).
Proof.
  destruct (decide (search_for_fit numbers capacity = -1)) as [|Hne]; [by left|].
  right. pose proof (search_for_fit_range numbers capacity).
  split; [lia|]. by apply search_for_fit_lookup.
Qed.

(** X2. On an ascending list the result is the number of elements that
    are at most the capacity, less one; the sentinel [-1] is the case of
    no such element. *)
Theorem search_for_fit_counts (numbers : list Z) (capacity : Z) :
  sorted numbers ->
  search_for_fit numbers capacity
  = Z.of_nat (length (filter (fun v => v <= capacity) numbers)) - 1.
Proof.
  intros Hs. unfold search_for_fit. rewrite bisect_count by done.
  destruct (Nat.eqb_spec (length (filter (fun v => v <= capacity) numbers)) 0)
    as [->|]; lia.
Qed.

Lemma search_for_fit_counts_witness :
  sorted [1; 3; 3; 7] /\
  search_for_fit [1; 3; 3; 7] 4
  = Z.of_nat (length (filter (fun v => v <= 4) [1; 3; 3; 7])) - 1.
Proof.
  assert (sorted [1; 3; 3; 7]) as Hs by (repeat constructor; lia).
  split; [done|]. exact (search_for_fit_counts [1; 3; 3; 7] 4 Hs).
Defined.

(** X3. On an ascending list a larger capacity never gives an earlier
    position. *)
Theorem search_for_fit_monotone (numbers : list Z) (c1 c2 : Z) :
  sorted numbers ->
  c1 <= c2 ->
  search_for_fit numbers c1 <= search_for_fit numbers c2.
Proof.
  intros Hs Hle. unfold search_for_fit. rewrite !bisect_count by done.
  pose proof (length_filter_le_mono numbers c1 c2 Hle).
  destruct (Nat.eqb_spec (length (filter (fun v => v <= c1) numbers)) 0);
    destruct (Nat.eqb_spec (length (filter (fun v => v <= c2) numbers)) 0); lia.
Qed.

Lemma search_for_fit_monotone_witness :
  sorted [1; 3; 3; 7] /\ 2 <= 4 /\
  search_for_fit [1; 3; 3; 7] 2 <= search_for_fit [1; 3; 3; 7] 4.
Proof.
  assert (sorted [1; 3; 3; 7]) as Hs by (repeat constructor; lia).
  assert (2 <= 4) as Hle by lia.
  split_and!; [done..|]. exact (search_for_fit_monotone [1; 3; 3; 7] 2 4 Hs Hle).
Defined.

(** ** What [greedy_knapsack] returns *)

(** X4. [greedy_knapsack] raises on no input: [numbers[index]] and
    [numbers.pop(index)] are always in range.  A call returns a packing
    or is still running. *)
Theorem greedy_knapsack_no_exception (fuel : nat) (numbers : list Z)
    (capacity : Z) :
  greedy_knapsack fuel numbers capacity = None \/
  exists bins, greedy_knapsack fuel numbers capacity = Some (Ok bins).
Proof.
  destruct (greedy_knapsack fuel numbers capacity) as [[bins|e]|] eqn:Hrun.
  - right. by exists bins.
  - by apply greedy_knapsack_never_raises in Hrun.
  - by left.
Qed.

(** X5. The packing depends on the sizes only, not on the order in which
    the caller lists them. *)
Theorem greedy_knapsack_order_independent (fuel : nat)
    (numbers1 numbers2 : list Z) (capacity : Z) :
  numbers1 ≡ₚ numbers2 ->
  greedy_knapsack fuel numbers1 capacity = greedy_knapsack fuel numbers2 capacity.
Proof.
  intros Hperm. unfold greedy_knapsack.
  assert (sort numbers1 = sort numbers2) as ->; [|done].
  apply (StronglySorted_unique Z.le); [apply sorted_sort..|].
  by rewrite !sort_Permutation.
Qed.

Lemma greedy_knapsack_order_independent_witness :
  [3; 1; 2] ≡ₚ [2; 3; 1] /\
  greedy_knapsack 3 [3; 1; 2] 3 = greedy_knapsack 3 [2; 3; 1] 3.
Proof.
  assert ([3; 1; 2] ≡ₚ [2; 3; 1]) as Hperm.
  { transitivity [3; 2; 1]; [apply perm_skip, perm_swap|apply perm_swap]. }
  split; [done|].
  exact (greedy_knapsack_order_independent 3 [3; 1; 2] [2; 3; 1] 3 Hperm).
Defined.

(** X6. A returned packing has at most as many knapsacks as there are
    sizes. *)
Theorem greedy_knapsack_bin_count_le (fuel : nat) (numbers : list Z)
    (capacity : Z) (bins : list (list Z)) :
  greedy_knapsack fuel numbers capacity = Some (Ok bins) ->
  (length bins <= length numbers)%nat.
Proof.
  intros Hrun. apply greedy_knapsack_spec in Hrun as [Hperm Hall].
  rewrite <- (Permutation_length Hperm). apply length_concat_nonempty.
  eapply Forall_impl; [done|]. by intros b [? _].
Qed.

Lemma greedy_knapsack_bin_count_le_witness :
  exists bins,
    greedy_knapsack 4 [3; 1; 5; 2; 4] 5 = Some (Ok bins) /\
    (length bins <= length [3; 1; 5; 2; 4])%nat.
Proof.
  exists [[5]; [4; 1]; [3; 2]].
  assert (greedy_knapsack 4 [3; 1; 5; 2; 4] 5 = Some (Ok [[5]; [4; 1]; [3; 2]]))
    as Hrun by (vm_compute; reflexivity).
  split; [done|].
  exact (greedy_knapsack_bin_count_le 4 [3; 1; 5; 2; 4] 5 _ Hrun).
Defined.

(** X7. A returned packing has enough knapsacks for the total size: the
    sum of all sizes is at most the capacity times the number of
    knapsacks. *)
Theorem greedy_knapsack_bin_count_ge (fuel : nat) (numbers : list Z)
    (capacity : Z) (bins : list (list Z)) :
  greedy_knapsack fuel numbers capacity = Some (Ok bins) ->
  sum numbers <= capacity * Z.of_nat (length bins).
Proof.
  intros Hrun. apply greedy_knapsack_spec in Hrun as [Hperm Hall].
  rewrite <- (sum_Permutation _ _ Hperm). apply sum_concat_le.
  eapply Forall_impl; [done|]. by intros b [_ ?].
Qed.

Lemma greedy_knapsack_bin_count_ge_witness :
  exists bins,
    greedy_knapsack 4 [3; 1; 5; 2; 4] 5 = Some (Ok bins) /\
    sum [3; 1; 5; 2; 4] <= 5 * Z.of_nat (length bins).
Proof.
  exists [[5]; [4; 1]; [3; 2]].
  assert (greedy_knapsack 4 [3; 1; 5; 2; 4] 5 = Some (Ok [[5]; [4; 1]; [3; 2]]))
    as Hrun by (vm_compute; reflexivity).
  split; [done|].
  exact (greedy_knapsack_bin_count_ge 4 [3; 1; 5; 2; 4] 5 _ Hrun).
Defined.

(** X8. A knapsack is closed only when nothing that is left fits it: in
    a returned packing no element of a later knapsack fits into what an
    earlier knapsack has left of the capacity. *)
Theorem greedy_knapsack_later_items_do_not_fit (fuel : nat)
    (numbers : list Z) (capacity : Z) (bins : list (list Z))
    (i j : nat) (b b' : list Z) (w : Z) :
  greedy_knapsack fuel numbers capacity = Some (Ok bins) ->
  bins !! i = Some b ->
  bins !! j = Some b' ->
  (i < j)%nat ->
  w ∈ b' ->
  capacity < sum b + w.
Proof.
  intros Hrun. apply greedy_knapsack_greedy in Hrun as [Hcl _].
  by apply closed_bins_lookup.
Qed.

Lemma greedy_knapsack_later_items_do_not_fit_witness :
  exists bins,
    greedy_knapsack 4 [3; 1; 5; 2; 4] 5 = Some (Ok bins) /\
    bins !! 1%nat = Some [4; 1] /\
    bins !! 2%nat = Some [3; 2] /\
    (1 < 2)%nat /\
    2 ∈ [3; 2] /\
    5 < sum [4; 1] + 2.
Proof.
  exists [[5]; [4; 1]; [3; 2]].
  assert (greedy_knapsack 4 [3; 1; 5; 2; 4] 5 = Some (Ok [[5]; [4; 1]; [3; 2]]))
    as Hrun by (vm_compute; reflexivity).
  assert ([[5]; [4; 1]; [3; 2]] !! 1%nat = Some [4; 1]) as Hi by reflexivity.
  assert ([[5]; [4; 1]; [3; 2]] !! 2%nat = Some [3; 2]) as Hj by reflexivity.
  assert (1 < 2)%nat as Hij by lia.
  assert (2 ∈ [3; 2]) as Hw by (apply elem_of_cons; right; apply elem_of_cons; by left).
  split_and!; [done..|].
  exact (greedy_knapsack_later_items_do_not_fit 4 [3; 1; 5; 2; 4] 5 _ 1 2 _ _ 2
           Hrun Hi Hj Hij Hw).
Defined.

(** X9. With non-negative sizes, no two knapsacks of a returned packing
    could be merged: the contents of any two of them exceed the capacity
    together. *)
Theorem greedy_knapsack_bins_cannot_merge (fuel : nat) (numbers : list Z)
    (capacity : Z) (bins : list (list Z)) (i j : nat) (b b' : list Z) :
  Forall (Z.le 0) numbers ->
  greedy_knapsack fuel numbers capacity = Some (Ok bins) ->
  bins !! i = Some b ->
  bins !! j = Some b' ->
  (i < j)%nat ->
  capacity < sum b + sum b'.
Proof.
  intros Hpos Hrun Hi Hj Hij.
  pose proof (greedy_knapsack_spec _ _ _ _ Hrun) as [Hperm Hall].
  apply greedy_knapsack_greedy in Hrun as [Hcl _].
  assert (b' ∈ bins) as Hin by (eapply list_elem_of_lookup_2; eauto).
  rewrite Forall_forall in Hall. destruct (Hall _ Hin) as [Hne _].
  destruct b' as [|w b']; [done|].
  assert (w ∈ w :: b') as Hw by (by left).
  pose proof (closed_bins_lookup _ _ _ _ _ _ _ Hcl Hi Hj Hij Hw).
  assert (Forall (Z.le 0) (w :: b')) as Hpos'.
  { apply Forall_forall. intros v Hv. rewrite Forall_forall in Hpos.
    apply Hpos. rewrite <- Hperm. by apply (elem_of_concat_2 _ (w :: b')). }
  pose proof (sum_elem_le _ _ Hpos' Hw). lia.
Qed.

Lemma greedy_knapsack_bins_cannot_merge_witness :
  exists bins,
    Forall (Z.le 0) [3; 1; 5; 2; 4] /\
    greedy_knapsack 4 [3; 1; 5; 2; 4] 5 = Some (Ok bins) /\
    bins !! 1%nat = Some [4; 1] /\
    bins !! 2%nat = Some [3; 2] /\
    (1 < 2)%nat /\
    5 < sum [4; 1] + sum [3; 2].
Proof.
  exists [[5]; [4; 1]; [3; 2]].
  assert (Forall (Z.le 0) [3; 1; 5; 2; 4]) as Hpos by (repeat constructor; lia).
  assert (greedy_knapsack 4 [3; 1; 5; 2; 4] 5 = Some (Ok [[5]; [4; 1]; [3; 2]]))
    as Hrun by (vm_compute; reflexivity).
  assert ([[5]; [4; 1]; [3; 2]] !! 1%nat = Some [4; 1]) as Hi by reflexivity.
  assert ([[5]; [4; 1]; [3; 2]] !! 2%nat = Some [3; 2]) as Hj by reflexivity.
  assert (1 < 2)%nat as Hij by lia.
  split_and!; [done..|].
  exact (greedy_knapsack_bins_cannot_merge 4 [3; 1; 5; 2; 4] 5 _ 1 2 _ _
           Hpos Hrun Hi Hj Hij).
Defined.

(** X10. With non-negative sizes, every knapsack of a returned packing
    lists its elements in descending order. *)
Theorem greedy_knapsack_bins_descending (fuel : nat) (numbers : list Z)
    (capacity : Z) (bins : list (list Z)) :
  Forall (Z.le 0) numbers ->
  greedy_knapsack fuel numbers capacity = Some (Ok bins) ->
  Forall descending bins.
Proof.
  intros Hpos Hrun. apply greedy_knapsack_greedy in Hrun as [_ Hdesc]. auto.
Qed.

Lemma greedy_knapsack_bins_descending_witness :
  exists bins,
    Forall (Z.le 0) [3; 1; 5; 2; 4] /\
    greedy_knapsack 4 [3; 1; 5; 2; 4] 5 = Some (Ok bins) /\
    Forall descending bins.
Proof.
  exists [[5]; [4; 1]; [3; 2]].
  assert (Forall (Z.le 0) [3; 1; 5; 2; 4]) as Hpos by (repeat constructor; lia).
  assert (greedy_knapsack 4 [3; 1; 5; 2; 4] 5 = Some (Ok [[5]; [4; 1]; [3; 2]]))
    as Hrun by (vm_compute; reflexivity).
  split_and!; [done..|].
  exact (greedy_knapsack_bins_descending 4 [3; 1; 5; 2; 4] 5 _ Hpos Hrun).
Defined.

(** X11. When the non-negative sizes of a non-empty list fit the capacity
    all together, the packing is a single knapsack that holds all of them
    from the largest to the smallest. *)
Theorem greedy_knapsack_everything_in_one (numbers : list Z) (capacity : Z) :
  numbers <> [] ->
  Forall (Z.le 0) numbers ->
  sum numbers <= capacity ->
  greedy_knapsack (S (length numbers)) numbers capacity
  = Some (Ok [reverse (sort numbers)]).
Proof.
  intros Hne Hpos Hsum.
  assert (Forall (fun v => v <= capacity) numbers) as Hfit.
  { apply Forall_forall. intros v Hv. pose proof (sum_elem_le _ _ Hpos Hv). lia. }
  destruct (greedy_knapsack_returns numbers capacity Hfit) as [bins Hrun].
  rewrite Hrun. do 2 f_equal.
  pose proof (greedy_knapsack_spec _ _ _ _ Hrun) as [Hperm _].
  pose proof (greedy_knapsack_greedy _ _ _ _ Hrun) as [_ Hdesc].
  specialize (Hdesc Hpos).
  assert (length bins <= 1)%nat as Hlen.
  { unfold greedy_knapsack in Hrun. apply pack_loop_single in Hrun as [Hlen _].
    - simpl in Hlen. lia.
    - apply sorted_sort.
    - by rewrite sort_Permutation.
    - by rewrite (sum_Permutation _ _ (sort_Permutation numbers)). }
  destruct bins as [|b [|b2 bins]]; [|clear Hlen|simpl in Hlen; lia].
  - simpl in Hperm. apply Permutation_nil_l in Hperm. by subst numbers.
  - simpl in Hperm. rewrite app_nil_r in Hperm. f_equal.
    apply Forall_cons_1 in Hdesc as [Hb _].
    rewrite <- (reverse_involutive b). f_equal.
    apply (StronglySorted_unique Z.le).
    + by apply descending_reverse.
    + apply sorted_sort.
    + by rewrite reverse_Permutation, sort_Permutation.
Qed.

Lemma greedy_knapsack_everything_in_one_witness :
  [3; 1; 5] <> [] /\ Forall (Z.le 0) [3; 1; 5] /\ sum [3; 1; 5] <= 10 /\
  greedy_knapsack (S (length [3; 1; 5])) [3; 1; 5] 10
  = Some (Ok [reverse (sort [3; 1; 5])]).
Proof.
  assert ([3; 1; 5] <> []) as Hne by discriminate.
  assert (Forall (Z.le 0) [3; 1; 5]) as Hpos by (repeat constructor; lia).
  assert (sum [3; 1; 5] <= 10) as Hsum by (vm_compute; discriminate).
  split_and!; [done..|].
  exact (greedy_knapsack_everything_in_one [3; 1; 5] 10 Hne Hpos Hsum).
Defined.

(** ** Capacities that are far enough apart *)





(** ** The length of the token types *)

(** X12. [get_paligemma_token_type_ids] returns a list of length
    [input_len] only when [0 <= image_seq_length <= input_len]; the segment
    is not cut to the sequence length, and outside this range the list is
    longer than [input_len]. *)
Theorem get_paligemma_token_type_ids_length (input_len seq_len : Z)
    (processor : ProcessorMixin) (ids : list Z) :
  image_seq_length processor = Some seq_len ->
  get_paligemma_token_type_ids input_len processor = Ok ids ->
  Z.of_nat (length ids) = Z.max 0 seq_len + Z.max 0 (input_len - seq_len) /\
  input_len <= Z.of_nat (length ids) /\
  (Z.of_nat (length ids) = input_len <-> 0 <= seq_len <= input_len).
Proof.
  intros Hattr. unfold get_paligemma_token_type_ids. rewrite Hattr.
  intros [= <-]. rewrite length_app, !length_replicate. lia.
Qed.

Lemma get_paligemma_token_type_ids_length_witness :
  exists ids,
    get_paligemma_token_type_ids 3 {| image_seq_length := Some 5 |} = Ok ids /\
    Z.of_nat (length ids) = Z.max 0 5 + Z.max 0 (3 - 5) /\
    3 <= Z.of_nat (length ids) /\
    (Z.of_nat (length ids) = 3 <-> 0 <= 5 <= 3).
Proof.
  exists [0; 0; 0; 0; 0].
  assert (get_paligemma_token_type_ids 3 {| image_seq_length := Some 5 |}
          = Ok [0; 0; 0; 0; 0]) as Hrun by reflexivity.
  split; [done|].
  exact (get_paligemma_token_type_ids_length 3 5
           {| image_seq_length := Some 5 |} _ eq_refl Hrun).
Defined.

(** * The frame selection of [read_video_pyav] *)

Section read_video_pyav_facts.
Context {Frame Array Shape : Type} `{EqDecision Shape}.
Context (to_ndarray : Frame -> Array) (shape : Array -> Shape).
Implicit Types (container decoded frames : list Frame) (indices : list Z).

Lemma frames_at_cons container (i : Z) (positions : list Z) :
  frames_at container (i :: positions)
  = match container !! Z.to_nat i with
    | Some frame => frame :: frames_at container positions
    | None => frames_at container positions
    end.
Proof. reflexivity. Qed.

(** The loop with its [break] collects what a comprehension over all
    positions collects: the frames whose position lies between the two
    bounds and occurs in [indices]. *)
Lemma decode_loop_spec decoded pre start_index end_index indices frames :
  decode_loop decoded (Z.of_nat (length pre)) start_index end_index indices frames
  = frames ++
    frames_at (pre ++ decoded)
      (filter (fun i => start_index <= i <= end_index /\ i ∈ indices)
         (seqZ (Z.of_nat (length pre)) (Z.of_nat (length decoded)))).
Proof.
  revert pre frames. induction decoded as [|frame decoded IH]; intros pre frames.
  - simpl. by rewrite app_nil_r.
  - cbn [decode_loop]. destruct (Z.ltb_spec end_index (Z.of_nat (length pre))).
    + rewrite (elem_of_nil_inv (filter _ _)); [by rewrite app_nil_r|].
      intros i [[? _] Hi%elem_of_seqZ]%list_elem_of_filter. lia.
    + replace (Z.of_nat (length pre) + 1) with (Z.of_nat (length (pre ++ [frame])))
        by (rewrite length_app; simpl; lia).
      rewrite IH, <- (app_assoc pre [frame] decoded). cbn [app].
      rewrite (seqZ_cons _ (Z.of_nat (length (frame :: decoded))))
        by (simpl; lia).
      replace (Z.succ (Z.of_nat (length pre)))
        with (Z.of_nat (length (pre ++ [frame])))
        by (rewrite length_app; simpl; lia).
      replace (Z.pred (Z.of_nat (length (frame :: decoded))))
        with (Z.of_nat (length decoded)) by (simpl; lia).
      rewrite filter_cons.
      destruct (Z.leb_spec start_index (Z.of_nat (length pre)));
        destruct (decide (Z.of_nat (length pre) ∈ indices)) as [Hin|Hin];
        first [rewrite (bool_decide_eq_true_2 _ Hin)
              |rewrite (bool_decide_eq_false_2 _ Hin)];
        cbn [andb].
      * rewrite decide_True by (split; [lia|done]).
        rewrite frames_at_cons, Nat2Z.id, list_lookup_middle by done.
        by rewrite <- app_assoc.
      * by rewrite decide_False by (intros [_ ?]; done).
      * by rewrite decide_False by (intros [? _]; lia).
      * by rewrite decide_False by (intros [? _]; lia).
Qed.

Lemma length_frames_at container (positions : list Z) :
  (length (frames_at container positions) <= length positions)%nat.
Proof.
  unfold frames_at. induction positions as [|i positions IH]; [done|].
  cbn. destruct (container !! Z.to_nat i); simpl; lia.
Qed.

Lemma np_stack_Ok (arrays stacked : list Array) :
  np_stack shape arrays = NpOk stacked -> stacked = arrays /\ arrays <> [].
Proof.
  unfold np_stack. destruct arrays as [|a rest]; [done|].
  destruct (forallb _ rest); [|done]. by intros [= <-].
Qed.

(** In an ascending array the first index is the least and the last one
    the greatest. *)
Lemma sorted_head_last indices start_index end_index i :
  sorted indices ->
  head indices = Some start_index ->
  last indices = Some end_index ->
  i ∈ indices ->
  start_index <= i <= end_index.
Proof.
  intros Hs Hhead Hlast [j Hj]%list_elem_of_lookup_1.
  rewrite head_lookup in Hhead. rewrite last_lookup in Hlast.
  pose proof (lookup_lt_Some _ _ _ Hj).
  split.
  - apply (sorted_lookup indices 0 j); [done|lia|done..].
  - apply (sorted_lookup indices j (pred (length indices))); [done|lia|done..].
Qed.
Lemma read_video_pyav_unfold container indices start_index end_index :
  head indices = Some start_index ->
  last indices = Some end_index ->
  read_video_pyav to_ndarray shape container indices
  = np_stack shape
      (to_ndarray <$>
       frames_at container
         (filter (fun i => start_index <= i <= end_index /\ i ∈ indices)
            (positions_of container))).
Proof.
  intros Hhead Hlast. unfold read_video_pyav. rewrite Hhead, Hlast.
  by rewrite (decode_loop_spec container []).
Qed.

Lemma elem_of_frames_at container (positions : list Z) frame :
  frame ∈ frames_at container positions <->
  exists i, i ∈ positions /\ container !! Z.to_nat i = Some frame.
Proof. unfold frames_at. apply list_elem_of_omap. Qed.

(** X13. The frames that [read_video_pyav] returns are the frames whose
    position lies between the first and the last index and occurs among
    the indices, in the order of the stream; there is at least one. *)
Theorem read_video_pyav_selects container indices (arrays : list Array) :
  read_video_pyav to_ndarray shape container indices = NpOk arrays ->
  exists start_index end_index,
    head indices = Some start_index /\
    last indices = Some end_index /\
    arrays <> [] /\
    arrays
    = to_ndarray <$>
      frames_at container
        (filter (fun i => start_index <= i <= end_index /\ i ∈ indices)
           (positions_of container)).
Proof.
  intros Hrun.
  destruct (head indices) as [start_index|] eqn:Hhead;
    [|by unfold read_video_pyav in Hrun; rewrite Hhead in Hrun].
  destruct (last indices) as [end_index|] eqn:Hlast;
    [|by unfold read_video_pyav in Hrun; rewrite Hhead, Hlast in Hrun].
  rewrite (read_video_pyav_unfold _ _ _ _ Hhead Hlast) in Hrun.
  apply np_stack_Ok in Hrun as [-> Hne]. by exists start_index, end_index.
Qed.

(** X14. For ascending indices the two bounds cut nothing off: the
    frames returned are those at the positions that occur among the
    indices, each once, however often an index is repeated; so there are
    at most as many frames as indices. *)
Theorem read_video_pyav_ascending container indices (arrays : list Array) :
  sorted indices ->
  read_video_pyav to_ndarray shape container indices = NpOk arrays ->
  arrays
  = to_ndarray <$>
    frames_at container (filter (fun i => i ∈ indices) (positions_of container)) /\
  (0 < length arrays <= length indices)%nat.
Proof.
  intros Hs Hrun.
  destruct (read_video_pyav_selects _ _ _ Hrun)
    as (start_index & end_index & Hhead & Hlast & Hne & ->).
  rewrite (list_filter_iff _ (fun i => i ∈ indices)) in Hne |- *.
  2,3: intros i; split; [by intros [_ ?]|];
       intros Hi; split; [|done]; by eapply sorted_head_last.
  split; [done|]. split.
  - apply Nat.neq_0_lt_0. intros Hlen. by apply Hne, nil_length_inv.
  - rewrite length_fmap. etrans; [apply length_frames_at|].
    apply submseteq_length, NoDup_submseteq.
    + apply NoDup_filter, NoDup_seqZ.
    + by intros i [? _]%list_elem_of_filter.
Qed.

(** X15. When no position of the stream lies between the first and the
    last index and occurs among the indices (the first index is larger
    than the last, or all indices lie beyond the stream), the call raises
    [ValueError]: there is nothing to stack. *)
Theorem read_video_pyav_nothing_selected container indices
    start_index end_index :
  head indices = Some start_index ->
  last indices = Some end_index ->
  (forall i, 0 <= i < Z.of_nat (length container) ->
             start_index <= i <= end_index -> i ∉ indices) ->
  read_video_pyav to_ndarray shape container indices = NpRaise NpValueError.
Proof.
  intros Hhead Hlast Hnone.
  rewrite (read_video_pyav_unfold _ _ _ _ Hhead Hlast).
  rewrite (elem_of_nil_inv (filter _ _)); [done|].
  intros i [[Hwin Hin] Hi%elem_of_seqZ]%list_elem_of_filter.
  apply (Hnone i); [lia|done..].
Qed.

(** X16. The call returns when some position of the stream lies between
    the first and the last index and occurs among the indices, and all
    frames of the stream give arrays of one shape. *)
Theorem read_video_pyav_returns container indices start_index end_index i :
  head indices = Some start_index ->
  last indices = Some end_index ->
  0 <= i < Z.of_nat (length container) ->
  start_index <= i <= end_index ->
  i ∈ indices ->
  (forall f g, f ∈ container -> g ∈ container ->
               shape (to_ndarray f) = shape (to_ndarray g)) ->
  exists arrays,
    read_video_pyav to_ndarray shape container indices = NpOk arrays.
Proof.
  intros Hhead Hlast Hi Hwin Hin Hshape.
  rewrite (read_video_pyav_unfold _ _ _ _ Hhead Hlast).
  set (frames := frames_at container _).
  assert (forall f, f ∈ frames -> f ∈ container) as Hsub.
  { intros f (j & _ & Hj)%elem_of_frames_at. by eapply list_elem_of_lookup_2. }
  assert (frames <> []) as Hne.
  { destruct (lookup_lt_is_Some_2 container (Z.to_nat i)) as [f Hf]; [lia|].
    assert (f ∈ frames) as Hf'.
    { apply elem_of_frames_at. exists i. split; [|done].
      apply list_elem_of_filter. split; [done|]. apply elem_of_seqZ. lia. }
    intros Heq. rewrite Heq in Hf'. by apply not_elem_of_nil in Hf'. }
  destruct frames as [|f frames]; [done|]. eexists. cbn.
  rewrite (proj2 (forallb_forall _ _)); [done|].
  intros a [g [-> Hg]]%list_elem_of_In%list_elem_of_fmap.
  apply bool_decide_eq_true_2. apply Hshape; apply Hsub; [by right|by left].
Qed.
End read_video_pyav_facts.

(** Instances: frames are numbered, every frame has the same shape. *)

Lemma read_video_pyav_selects_witness :
  read_video_pyav (fun f : Z => f) (fun _ : Z => tt) [10; 11; 12; 13] [1; 3]
  = NpOk [11; 13] /\
  exists start_index end_index,
    head [1; 3] = Some start_index /\
    last [1; 3] = Some end_index /\
    [11; 13] <> [] /\
    [11; 13]
    = (fun f : Z => f) <$>
      frames_at [10; 11; 12; 13]
        (filter (fun i => start_index <= i <= end_index /\ i ∈ [1; 3])
           (positions_of [10; 11; 12; 13])).
Proof.
  assert (read_video_pyav (fun f : Z => f) (fun _ : Z => tt)
            [10; 11; 12; 13] [1; 3] = NpOk [11; 13]) as Hrun
    by (vm_compute; reflexivity).
  split; [done|].
  exact (read_video_pyav_selects (fun f : Z => f) (fun _ : Z => tt)
           [10; 11; 12; 13] [1; 3] [11; 13] Hrun).
Defined.

Lemma read_video_pyav_ascending_witness :
  sorted [0; 0; 1; 1] /\
  read_video_pyav (fun f : Z => f) (fun _ : Z => tt) [10; 11; 12] [0; 0; 1; 1]
  = NpOk [10; 11] /\
  [10; 11]
  = (fun f : Z => f) <$>
    frames_at [10; 11; 12]
      (filter (fun i => i ∈ [0; 0; 1; 1]) (positions_of [10; 11; 12])) /\
  (0 < length [10%Z; 11%Z] <= length [0%Z; 0%Z; 1%Z; 1%Z])%nat.
Proof.
  assert (sorted [0; 0; 1; 1]) as Hs by (repeat constructor; lia).
  assert (read_video_pyav (fun f : Z => f) (fun _ : Z => tt)
            [10; 11; 12] [0; 0; 1; 1] = NpOk [10; 11]) as Hrun
    by (vm_compute; reflexivity).
  split_and!; [done..| |];
    apply (read_video_pyav_ascending (fun f : Z => f) (fun _ : Z => tt)
             [10; 11; 12] [0; 0; 1; 1] [10; 11] Hs Hrun).
Defined.

Lemma read_video_pyav_nothing_selected_witness :
  head [3; 1] = Some 3 /\ last [3; 1] = Some 1 /\
  read_video_pyav (fun f : Z => f) (fun _ : Z => tt) [10; 11; 12; 13; 14] [3; 1]
  = NpRaise NpValueError.
Proof.
  split_and!; [done..|].
  apply (read_video_pyav_nothing_selected (fun f : Z => f) (fun _ : Z => tt)
           [10; 11; 12; 13; 14] [3; 1] 3 1); [done..|].
  intros i _ Hwin. lia.
Defined.

Lemma read_video_pyav_returns_witness :
  exists arrays,
    read_video_pyav (fun f : Z => f) (fun _ : Z => tt) [10; 11; 12; 13] [1; 3]
    = NpOk arrays.
Proof.
  apply (read_video_pyav_returns (fun f : Z => f) (fun _ : Z => tt)
           [10; 11; 12; 13] [1; 3] 1 3 1); [done..|simpl; lia|lia| |done].
  by left.
Defined.
